(** * media-server-diff: a shallow embedding of src/main.rs

    Rust [String], [&str] and [OsStr] values are modelled as Rocq [string]s
    whose characters are the underlying bytes (UTF-8 for [String]).  The
    [f64] steps of the formatters use the kernel's primitive binary64
    floats, so the float arithmetic is that of the program. *)

From Stdlib Require Import ZArith NArith Lia List Bool.
From Stdlib Require Import Strings.String Strings.Ascii.
From Stdlib Require Import Floats.
Import ListNotations.

Open Scope string_scope.

(** ** Rendering of integers, as [format!("{}")] and [format!("{:02}")] *)

Definition digit_char (d : N) : ascii := ascii_of_N (48 + d).

Fixpoint dec_digits (fuel : nat) (n : N) (acc : string) : string :=
  match fuel with
  | O => acc
  | S f =>
      let acc' := String (digit_char (n mod 10)) acc in
      if (n <? 10)%N then acc' else dec_digits f (n / 10) acc'
  end.

(** [format!("{}", n)] for an unsigned integer. *)
Definition string_of_N (n : N) : string :=
  dec_digits (S (N.size_nat n)) n "".

(** [format!("{}", z)] for a signed integer. *)
Definition string_of_Z (z : Z) : string :=
  match z with
  | Zneg p => "-" ++ string_of_N (Npos p)
  | _ => string_of_N (Z.to_N z)
  end.

(** [format!("{:02}", n)]: width 2, padded with zeros on the left. *)
Definition pad2 (n : N) : string :=
  let s := string_of_N n in
  if (String.length s <? 2)%nat then "0" ++ s else s.

(** ** [std::time::Duration] *)

Record Duration := mkDuration {
  as_secs : N;        (* u64 *)
  subsec_nanos : N    (* u32, below 1_000_000_000 *)
}.

Definition duration_zero : Duration := mkDuration 0 0.

Definition from_secs (s : N) : Duration := mkDuration s 0.

(** [Duration::from_micros] *)
Definition from_micros (us : N) : Duration :=
  mkDuration (us / 1000000) ((us mod 1000000) * 1000).

(** ** [f64] helpers *)

(** [n as f64] for an integer: rounding to nearest, ties to even. *)
Definition z_as_f64 (z : Z) : float :=
  SF2Prim (SpecFloat.binary_normalize FloatOps.prec FloatOps.emax z 0 false).

(** [x as u64]: truncation toward zero, saturating, NaN to 0. *)
Definition f64_as_u64 (x : float) : N :=
  match Prim2SF x with
  | S754_finite false m e =>
      if (0 <=? e)%Z then N.min (Z.to_N (Z.shiftl (Zpos m) e)) (2 ^ 64 - 1)
      else Z.to_N (Z.shiftr (Zpos m) (- e))
  | S754_infinity false => 2 ^ 64 - 1
  | _ => 0
  end.

(** [format!("{:.2}", x)]: the exact binary value rounded to two decimals,
    ties to even. *)
Definition round_hundredths (m : positive) (e : Z) : N :=
  if (0 <=? e)%Z then Z.to_N (Z.shiftl (Zpos m * 100) e)
  else
    let num := (Zpos m * 100)%Z in
    let den := Z.shiftl 1 (- e) in
    let q := (num / den)%Z in
    let r := (num mod den)%Z in
    if (den <? 2 * r)%Z || ((2 * r =? den)%Z && Z.odd q)
    then Z.to_N (q + 1) else Z.to_N q.

Definition fixed2_of_hundredths (h : N) : string :=
  string_of_N (h / 100) ++ "." ++ pad2 (h mod 100).

Definition fmt_f64_2 (x : float) : string :=
  match Prim2SF x with
  | S754_zero false => "0.00"
  | S754_zero true => "-0.00"
  | S754_finite s m e =>
      (if s then "-" else "") ++ fixed2_of_hundredths (round_hundredths m e)
  | S754_infinity false => "inf"
  | S754_infinity true => "-inf"
  | S754_nan => "NaN"
  end.

(** ** [format_bit_rate] (main.rs, lines 140-148) *)

Definition format_bit_rate (bit_rate : Z) : string :=
  if (1000000 <? bit_rate)%Z then
    fmt_f64_2 (PrimFloat.div (z_as_f64 bit_rate) 1000000.0%float) ++ " MB/s"
  else if (1000 <? bit_rate)%Z then
    fmt_f64_2 (PrimFloat.div (z_as_f64 bit_rate) 1000.0%float) ++ " KB/s"
  else string_of_Z bit_rate ++ " B/s".

(** ** [format_duration] (main.rs, lines 151-174) *)

(** The fractional part: [duration.subsec_nanos() as f64 * 1e-7]; the
    literal is the binary64 value nearest to [1e-7], as rustc rounds it. *)
Definition subsec_scaled (d : Duration) : float :=
  PrimFloat.mul (z_as_f64 (Z.of_N (subsec_nanos d))) 0x1.ad7f29abcaf48p-24%float.

Definition frac_suffix (d : Duration) : string :=
  if PrimFloat.ltb 0%float (subsec_scaled d)
  then "." ++ string_of_N (f64_as_u64 (subsec_scaled d))
  else "".

Definition format_duration (duration : Duration) : string :=
  let minutes := (as_secs duration / 60)%N in
  let hours := (minutes / 60)%N in
  let days := (hours / 24)%N in
  (if (0 <? days)%N then pad2 days ++ ":" else "") ++
  (if (0 <? hours)%N then pad2 (hours mod 24) ++ ":" else "") ++
  pad2 (minutes mod 60) ++ ":" ++
  pad2 (as_secs duration mod 60) ++
  frac_suffix duration.

(** ** Strings *)

Definition ends_with (suffix s : string) : bool :=
  let l := list_ascii_of_string s in
  let k := list_ascii_of_string suffix in
  (List.length k <=? List.length l)%nat &&
  (if list_eq_dec ascii_dec (skipn (List.length l - List.length k) l) k
   then true else false).

Definition starts_with (prefix s : string) : bool := String.prefix prefix s.

Definition nl : string := String (ascii_of_N 10) "".
Definition tab : string := String (ascii_of_N 9) "".

(** [slice.join(sep)] *)
Fixpoint join (sep : string) (xs : list string) : string :=
  match xs with
  | [] => ""
  | [x] => x
  | x :: xs' => x ++ sep ++ join sep xs'
  end.

(** *** UTF-8, as [str::from_utf8] and [String::from_utf8_lossy] see it *)

Definition byte_at (c : ascii) : N := N_of_ascii c.

Definition in_range (lo hi : N) (c : ascii) : bool :=
  (lo <=? byte_at c)%N && (byte_at c <=? hi)%N.

Definition cont_byte := in_range 128 191.

(** Number of continuation bytes after a lead byte, and the range allowed for
    the first one (Unicode Table 3-7); [None] for a byte that never starts a
    character. *)
Definition lead_info (b : ascii) : option (nat * N * N) :=
  let v := byte_at b in
  if (v <=? 127)%N then Some (0%nat, 0%N, 0%N)
  else if (v <? 194)%N then None
  else if (v <=? 223)%N then Some (1%nat, 128%N, 191%N)
  else if (v =? 224)%N then Some (2%nat, 160%N, 191%N)
  else if (v =? 237)%N then Some (2%nat, 128%N, 159%N)
  else if (v <=? 239)%N then Some (2%nat, 128%N, 191%N)
  else if (v =? 240)%N then Some (3%nat, 144%N, 191%N)
  else if (v <=? 243)%N then Some (3%nat, 128%N, 191%N)
  else if (v =? 244)%N then Some (3%nat, 128%N, 143%N)
  else None.

(** Length of the longest run of continuation bytes accepted so far (at most
    [n]); the first one is checked against [lo]..[hi]. *)
Fixpoint conts_ok (n : nat) (first : bool) (lo hi : N) (l : list ascii) : nat :=
  match n, l with
  | O, _ => O
  | S n', c :: l' =>
      if (if first then in_range lo hi c else cont_byte c)
      then S (conts_ok n' false lo hi l') else O
  | _, [] => O
  end.

Inductive utf8_step := Char (len : nat) | Bad (len : nat).

(** Decoding at the head of a non-empty byte list: a character of [len]
    bytes, or an invalid maximal prefix of [len] bytes. *)
Definition utf8_head (c : ascii) (rest : list ascii) : utf8_step :=
  match lead_info c with
  | None => Bad 1
  | Some (n, lo, hi) =>
      let k := conts_ok n true lo hi rest in
      if Nat.eqb k n then Char (S n) else Bad (S k)
  end.

Fixpoint utf8_valid_fuel (fuel : nat) (l : list ascii) : bool :=
  match fuel, l with
  | _, [] => true
  | O, _ => false
  | S f, c :: rest =>
      match utf8_head c rest with
      | Char n => utf8_valid_fuel f (skipn n l)
      | Bad _ => false
      end
  end.

(** [OsStr::to_str]: [Some] exactly when the bytes are valid UTF-8. *)
Definition to_str (s : string) : option string :=
  let l := list_ascii_of_string s in
  if utf8_valid_fuel (List.length l) l then Some s else None.

Definition replacement_char : list ascii :=
  [ascii_of_N 239; ascii_of_N 191; ascii_of_N 189].

Fixpoint lossy_fuel (fuel : nat) (l : list ascii) : list ascii :=
  match fuel, l with
  | _, [] => []
  | O, _ => []
  | S f, c :: rest =>
      match utf8_head c rest with
      | Char n => firstn n l ++ lossy_fuel f (skipn n l)
      | Bad n => replacement_char ++ lossy_fuel f (skipn n l)
      end
  end.

(** [Path::to_string_lossy]: each maximal invalid subpart becomes U+FFFD. *)
Definition to_string_lossy (s : string) : string :=
  let l := list_ascii_of_string s in
  string_of_list_ascii (lossy_fuel (List.length l) l).

(** A string given by its bytes. *)
Definition of_bytes (bs : list N) : string :=
  string_of_list_ascii (map ascii_of_N bs).

(** ** Effects: output lines and panics *)

Inductive level := Info | Debug | Warn.

(** What the process emits: a line on standard output ([println!]), a
    diagnostic through [tracing] ([info!], [debug!], [warn!]), or the
    installation of the global subscriber ([tracing_subscriber::fmt::init()]). *)
Inductive event :=
| Stdout (text : string)
| Log (lvl : level) (msg : string)
| InitSubscriber.

(** A computation either returns or panics ([unwrap] on [None] or [Err]). *)
Inductive outcome (A : Type) := Ret (a : A) | Panic.
Arguments Ret {A} a.
Arguments Panic {A}.

(** Writer and panic monad: the outcome and the events emitted, in order. *)
Definition M (A : Type) : Type := (outcome A * list event)%type.

Definition ret {A} (a : A) : M A := (Ret a, []).
Definition panic {A} : M A := (Panic, []).

Definition bind {A B} (m : M A) (k : A -> M B) : M B :=
  match m with
  | (Ret a, es) => let (o, es') := k a in (o, List.app es es')
  | (Panic, es) => (Panic, es)
  end.

Notation "x <- m ;; k" := (bind m (fun x => k))
  (at level 61, m at next level, right associativity).
Notation "m ;;; k" := (bind m (fun _ => k))
  (at level 61, right associativity).

Definition emit (e : event) : M unit := (Ret tt, [e]).
Definition println (s : string) : M unit := emit (Stdout (s ++ nl)).
Definition log (l : level) (msg : string) : M unit := emit (Log l msg).

Definition result_of {A} (m : M A) : outcome A := fst m.
Definition events_of {A} (m : M A) : list event := snd m.

(** The lines the program writes itself, with [println!]. *)
Definition stdout_of (es : list event) : list string :=
  flat_map (fun e => match e with Stdout s => [s] | _ => [] end) es.

(** The level filter of the installed subscriber ([LevelFilter]); the fmt
    subscriber built by [fmt::init()] lets through [INFO] and below unless
    configured otherwise. *)
Inductive level_filter := OFF | ERROR | WARN | INFO | DEBUG | TRACE.

Definition filter_rank (f : level_filter) : nat :=
  match f with OFF => 0 | ERROR => 1 | WARN => 2 | INFO => 3 | DEBUG => 4 | TRACE => 5 end.

Definition level_rank (l : level) : nat :=
  match l with Warn => 2 | Info => 3 | Debug => 4 end.

Definition enabled (f : level_filter) (l : level) : bool := Nat.leb (level_rank l) (filter_rank f).

(** A line of standard output: one written by [println!], or a log record
    formatted by the fmt subscriber, whose default writer is standard
    output.  The record's rendering (time stamp, level, target, span) is
    left abstract. *)
Inductive out_line := Printed (text : string) | Logged (lvl : level) (msg : string).

(** Standard output of a run: the [println!] lines, interleaved with the
    enabled log records once a subscriber is installed; records emitted
    before that go nowhere. *)
Fixpoint output_from (f : level_filter) (installed : bool) (es : list event) : list out_line :=
  match es with
  | [] => []
  | Stdout s :: es' => Printed s :: output_from f installed es'
  | Log l m :: es' =>
      if installed && enabled f l then Logged l m :: output_from f installed es'
      else output_from f installed es'
  | InitSubscriber :: es' => output_from f true es'
  end.

Definition standard_output (f : level_filter) (es : list event) : list out_line :=
  output_from f false es.

Definition is_printed (o : out_line) : bool :=
  match o with Printed _ => true | Logged _ _ => false end.

Fixpoint iter_M {A} (f : A -> M unit) (xs : list A) : M unit :=
  match xs with
  | [] => ret tt
  | x :: xs' => f x ;;; iter_M f xs'
  end.

(** [iter.filter_map(f).collect()]; on a rayon [par_iter] the collected
    vector keeps the order of the input, which is the order used here. *)
Fixpoint filter_map_M {A B} (f : A -> M (option B)) (xs : list A) : M (list B) :=
  match xs with
  | [] => ret []
  | x :: xs' =>
      r <- f x ;;
      rs <- filter_map_M f xs' ;;
      ret (match r with Some b => b :: rs | None => rs end)
  end.

(** ** The ffmpeg interface (crate [ffmpeg_next]) *)

Inductive media_type := Video | Audio | Subtitle | Data | Attachment.

Record Stream := mkStream {
  index : N;
  rate : Z * Z;                       (* [Rational] *)
  metadata : list (string * string)
}.

(** [Rational]'s [Display]: numerator/denominator. *)
Definition show_rational (r : Z * Z) : string :=
  string_of_Z (fst r) ++ "/" ++ string_of_Z (snd r).

Record Context := mkContext {
  mime_types : list string;           (* [context.format().mime_types()] *)
  ctx_duration : Z;                   (* [context.duration()], an i64 *)
  ctx_bit_rate : Z;                   (* [context.bit_rate()], an i64 *)
  streams : list Stream;              (* [context.streams()] *)
  best : media_type -> option Stream  (* [context.streams().best(kind)] *)
}.

(** ** walkdir *)

Record DirEntry := mkDirEntry {
  entry_path : string;                (* [into_path()] *)
  entry_is_dir : bool;                (* [file_type().is_dir()] *)
  entry_file_name : string            (* [file_name()], raw bytes *)
}.

Record WalkError := mkWalkError { error_path : option string }.

Inductive walk_item := WOk (e : DirEntry) | WErr (err : WalkError).

(** ** [should_inspect_file] (main.rs, lines 135-137) *)

Definition unwrap {A} (o : option A) : M A :=
  match o with Some a => ret a | None => panic end.

Definition should_inspect_file (entry : DirEntry) : M bool :=
  if negb (entry_is_dir entry) then
    name <- unwrap (to_str (entry_file_name entry)) ;;
    ret (negb (ends_with ".nfo" name))
  else ret false.

(** [i64 -> u64] by [try_into().unwrap_or(0)]. *)
Definition try_into_u64_or_0 (v : Z) : N :=
  if (v <? 0)%Z then 0%N else Z.to_N v.

Definition log_metadata (st : Stream) : M unit :=
  iter_M (fun kv => log Debug (fst kv ++ ": " ++ snd kv)) (metadata st).

Definition is_av_mime (mime_type : string) : bool :=
  starts_with "audio" mime_type || starts_with "video" mime_type.

Section Program.

(** [ffmpeg::format::input(path)]: [Some] context when the file opens as a
    media container, [None] for the [Err] case. *)
Variable input : string -> option Context.

(** [WalkDir::new(path).into_iter()]: the entries reached from a root. *)
Variable walk_dir : string -> list walk_item.

(** The arm for an opened container (main.rs, lines 69-123). *)
Definition analyze_context (path : string) (context : Context) : M (option string) :=
  log Debug ("mime_types=" ++ join "," (mime_types context)) ;;;
  (* the MIME check; its [if] has an empty body *)
  let _ := existsb is_av_mime (mime_types context) in
  let file_name := to_string_lossy path in
  let duration :=
    format_duration (from_micros (try_into_u64_or_0 (ctx_duration context))) in
  let bit_rate := format_bit_rate (ctx_bit_rate context) in
  video <- match best context Video with
           | Some stream =>
               println ("Best video stream index: " ++ string_of_N (index stream)) ;;;
               log_metadata stream ;;;
               ret ["Video: " ++ show_rational (rate stream) ++ " kb/s"]
           | None => ret []
           end ;;
  audio <- match best context Audio with
           | Some stream =>
               println ("Best video stream index: " ++ string_of_N (index stream)) ;;;
               log_metadata stream ;;;
               ret ["Audio: " ++ show_rational (rate stream) ++ " kb/s"]
           | None => ret []
           end ;;
  let stream_descriptions := List.app video audio in
  iter_M (fun stream =>
            log Debug ("Stream Index: " ++ string_of_N (index stream)) ;;;
            log_metadata stream) (streams context) ;;;
  ret (Some (file_name ++ nl ++ tab ++ "Duration: " ++ duration ++
             nl ++ tab ++ "Bit rate: " ++ bit_rate ++
             nl ++ tab ++ join (nl ++ tab) stream_descriptions)).

(** [analyze_path] (main.rs, lines 67-129). *)
Definition analyze_path (path : string) : M (option string) :=
  match input path with
  | Some context => analyze_context path context
  | None => log Warn "Error processing file, ignoring" ;;; ret None
  end.

(** The [filter_map] over the walk (main.rs, lines 36-50). *)
Fixpoint collect_paths (items : list walk_item) : M (list string) :=
  match items with
  | [] => ret []
  | WOk result :: rest =>
      keep <- should_inspect_file result ;;
      paths <- collect_paths rest ;;
      ret (if keep then entry_path result :: paths else paths)
  | WErr error :: rest =>
      p <- unwrap (error_path error) ;;
      p' <- unwrap (to_str p) ;;
      log Warn ("Permissions error path=" ++ p') ;;;
      collect_paths rest
  end.

(** [generate_report] (main.rs, lines 33-60).  The test [!path.is_dir()]
    has an empty body and is left out. *)
Definition generate_report (path : string) : M (option string) :=
  paths <- collect_paths (walk_dir path) ;;
  log Debug ("Discovered path count num_paths=" ++ string_of_N (N.of_nat (List.length paths))) ;;;
  results <- filter_map_M analyze_path paths ;;
  ret (Some (join nl results)).

(** [main] (main.rs, lines 22-31): [tracing_subscriber::fmt::init()], then
    the run from the parsed [root_dir] on. *)
Definition main (root_dir : string) : M unit :=
  emit InitSubscriber ;;;
  log Info ("Path: " ++ root_dir) ;;;
  report <- generate_report root_dir ;;
  match report with
  | Some file_contents => println file_contents
  | None => ret tt
  end.

End Program.

(** ** A concrete directory: an audio file, a file that does not open, an
    unreadable directory and an [.nfo] sidecar *)

Definition song_stream : Stream := mkStream 0 (44100, 1)%Z [("title", "Song")].

Definition song_context : Context :=
  mkContext ["audio/mpeg"] 91000000 12000 [song_stream]
    (fun k => match k with Audio => Some song_stream | _ => None end).

Definition demo_input (p : string) : option Context :=
  if String.eqb p "/m/song.mp3" then Some song_context else None.

Definition demo_walk (root : string) : list walk_item :=
  [WOk (mkDirEntry "/m" true "m");
   WOk (mkDirEntry "/m/song.mp3" false "song.mp3");
   WErr (mkWalkError (Some "/m/private"));
   WOk (mkDirEntry "/m/broken.mkv" false "broken.mkv");
   WOk (mkDirEntry "/m/readme.nfo" false "readme.nfo")].

(** A tree with nothing to inspect: a directory and a sidecar. *)
Definition sidecar_walk (root : string) : list walk_item :=
  [WOk (mkDirEntry "/s" true "s");
   WOk (mkDirEntry "/s/readme.nfo" false "readme.nfo")].

(** The stream lines of a summary: best video, then best audio. *)
Definition best_descriptions (context : Context) : list string :=
  List.app
    (match best context Video with
     | Some stream => ["Video: " ++ show_rational (rate stream) ++ " kb/s"]
     | None => [] end)
    (match best context Audio with
     | Some stream => ["Audio: " ++ show_rational (rate stream) ++ " kb/s"]
     | None => [] end).

(** The same container with other declared MIME types. *)
Definition with_mime_types (ms : list string) (c : Context) : Context :=
  mkContext ms (ctx_duration c) (ctx_bit_rate c) (streams c) (best c).

(** ** Concrete containers *)

Definition movie_video : Stream := mkStream 0 (24, 1)%Z [].
Definition movie_audio : Stream := mkStream 1 (48000, 1)%Z [("language", "eng")].

Definition movie_context : Context :=
  mkContext ["video/x-matroska"] 5400000000 8000000 [movie_video; movie_audio]
    (fun k => match k with
              | Video => Some movie_video
              | Audio => Some movie_audio
              | _ => None end).

Definition movie_input (p : string) : option Context :=
  if String.eqb p "/m/movie.mkv" then Some movie_context else None.

Definition bad_name : string := of_bytes [255; 46; 109; 107; 118]%N.

Definition is_digit (c : ascii) : bool := in_range 48 57 c.

Definition all_digits (s : string) : bool := forallb is_digit (list_ascii_of_string s).

(** The shapes named by the spec: [MM:SS], [HH:MM:SS] or [DD:HH:MM:SS], each
    field two digits, optionally followed by a dot and digits. *)
Definition frac_shape (l : list ascii) : bool :=
  match l with
  | [] => true
  | c :: ds => Ascii.eqb c "." && negb (List.forallb (fun _ => false) ds)
               && forallb is_digit ds
  end.

Fixpoint shape_segments (n : nat) (l : list ascii) : bool :=
  match n, l with
  | S O, a :: b :: rest => is_digit a && is_digit b && frac_shape rest
  | S (S _ as n'), a :: b :: c :: rest =>
      is_digit a && is_digit b && Ascii.eqb c ":" && shape_segments n' rest
  | _, _ => false
  end.

Definition claimed_shape (s : string) : bool :=
  let l := list_ascii_of_string s in
  shape_segments 2 l || shape_segments 3 l || shape_segments 4 l.

(** The zero or one element of an option. *)
Definition list_of_option {A} (o : option A) : list A :=
  match o with Some a => [a] | None => [] end.

(** A container that opens but has no best video or audio stream. *)
Definition silent_context : Context :=
  mkContext ["application/octet-stream"] 5000000 800 [] (fun _ => None).

Definition silent_input (p : string) : option Context :=
  if String.eqb p "/m/blank.mkv" then Some silent_context else None.

(** A container whose duration is unknown: ffmpeg reports [AV_NOPTS_VALUE],
    [i64::MIN]. *)
Definition live_context : Context :=
  mkContext ["video/MP2T"] (-9223372036854775808) 0 [] (fun _ => None).

Definition live_input (p : string) : option Context :=
  if String.eqb p "/m/live.ts" then Some live_context else None.


(** Reading a string of decimal digits back as a number. *)
Definition digit_step (acc : N) (c : ascii) : N := (acc * 10 + (byte_at c - 48))%N.
Definition digits_value (s : string) : N := fold_left digit_step (list_ascii_of_string s) 0%N.
(** The number of [:] characters of a string. *)
Fixpoint colons (s : string) : nat :=
  match s with
  | EmptyString => O
  | String c s' => (if Ascii.eqb c ":" then 1 else 0) + colons s'
  end.

(** * Tests, lemmas and claims *)

Example fd_test_days : format_duration (from_secs 115197) = "01:07:59:57".
Proof. vm_compute. reflexivity. Qed.
Example fd_test_frac : format_duration (mkDuration 1 120000000) = "00:01.12".
Proof. vm_compute. reflexivity. Qed.
Example fbr_test_mb : format_bit_rate 12000000 = "12.00 MB/s".
Proof. vm_compute. reflexivity. Qed.
Example fbr_test_kb : format_bit_rate 1125 = "1.12 KB/s".
Proof. vm_compute. reflexivity. Qed.
Example fbr_test_neg : format_bit_rate (-5) = "-5 B/s".
Proof. vm_compute. reflexivity. Qed.

Example utf8_test_ok :
  to_str ("caf" ++ of_bytes [195; 169]%N ++ ".mkv")
  = Some ("caf" ++ of_bytes [195; 169]%N ++ ".mkv").
Proof. vm_compute. reflexivity. Qed.
Example utf8_test_bad : to_str ("a" ++ of_bytes [255]%N ++ ".mkv") = None.
Proof. vm_compute. reflexivity. Qed.
Example utf8_test_lossy :
  to_string_lossy ("a" ++ of_bytes [226; 130]%N ++ ".mkv")
  = "a" ++ of_bytes [239; 191; 189]%N ++ ".mkv".
Proof. vm_compute. reflexivity. Qed.
Example utf8_test_surrogate : to_str (of_bytes [237; 160; 128]%N) = None.
Proof. vm_compute. reflexivity. Qed.

Example demo_report :
  result_of (generate_report demo_input demo_walk "/m")
  = Ret (Some ("/m/song.mp3" ++ nl ++ tab ++ "Duration: 01:31" ++ nl ++ tab ++
               "Bit rate: 12.00 KB/s" ++ nl ++ tab ++ "Audio: 44100/1 kb/s")).
Proof. vm_compute. reflexivity. Qed.

(** ** Lemmas on strings *)

Lemma list_ascii_of_string_app (a b : string) :
  list_ascii_of_string (a ++ b) = (list_ascii_of_string a ++ list_ascii_of_string b)%list.
Proof. induction a as [|c a IH]; simpl; [reflexivity | now rewrite IH]. Qed.

Lemma string_of_list_ascii_app (a b : list ascii) :
  string_of_list_ascii (a ++ b) = string_of_list_ascii a ++ string_of_list_ascii b.
Proof. induction a as [|c a IH]; simpl; [reflexivity | now rewrite IH]. Qed.

Lemma skipn_length_app {A} (p k : list A) : skipn (List.length p) (p ++ k) = k.
Proof. induction p; simpl; auto. Qed.

Lemma ends_with_spec (suffix s : string) :
  ends_with suffix s = true <-> exists pre, s = pre ++ suffix.
Proof.
  unfold ends_with. split.
  - intros H. apply andb_prop in H as [_ Heq].
    set (l := list_ascii_of_string s) in *.
    set (k := list_ascii_of_string suffix) in *.
    set (n := (List.length l - List.length k)%nat) in *.
    destruct (list_eq_dec _ _ _) as [E|]; [|discriminate].
    exists (string_of_list_ascii (firstn n l)).
    rewrite <- (string_of_list_ascii_of_string suffix).
    fold k. rewrite <- string_of_list_ascii_app, <- E, firstn_skipn.
    subst l. now rewrite string_of_list_ascii_of_string.
  - intros [pre ->]. rewrite list_ascii_of_string_app, length_app.
    apply andb_true_intro; split.
    + apply Nat.leb_le; lia.
    + replace (List.length (list_ascii_of_string pre)
               + List.length (list_ascii_of_string suffix)
               - List.length (list_ascii_of_string suffix))%nat
        with (List.length (list_ascii_of_string pre)) by lia.
      rewrite skipn_length_app.
      destruct (list_eq_dec _ _ _); [reflexivity | contradiction].
Qed.

(** ** Claims *)

(** C2: [format_bit_rate] picks its unit with strict [>] tests:
    above 1,000,000 the MB/s form, above 1,000 up to 1,000,000 the KB/s
    form, and otherwise (1,000 itself, zero, negatives) the plain
    ["{r} B/s"]; and the four values of the spec. *)
Theorem format_bit_rate_units (r : Z) :
  ((1000000 < r)%Z ->
     format_bit_rate r
     = fmt_f64_2 (PrimFloat.div (z_as_f64 r) 1000000.0%float) ++ " MB/s") /\
  ((1000 < r <= 1000000)%Z ->
     format_bit_rate r
     = fmt_f64_2 (PrimFloat.div (z_as_f64 r) 1000.0%float) ++ " KB/s") /\
  ((r <= 1000)%Z -> format_bit_rate r = string_of_Z r ++ " B/s") /\
  format_bit_rate 12000000 = "12.00 MB/s" /\
  format_bit_rate 12000 = "12.00 KB/s" /\
  format_bit_rate 12 = "12 B/s" /\
  format_bit_rate 1000 = "1000 B/s".
Proof.
  unfold format_bit_rate.
  split; [|split; [|split]].
  - intros H. now rewrite (proj2 (Z.ltb_lt _ _) H).
  - intros [H1 H2]. rewrite (proj2 (Z.ltb_ge _ _) H2).
    now rewrite (proj2 (Z.ltb_lt _ _) H1).
  - intros H. rewrite (proj2 (Z.ltb_ge 1000000 r)) by lia.
    now rewrite (proj2 (Z.ltb_ge _ _) H).
  - vm_compute. repeat split.
Qed.

(** C5: for an entry whose name is valid UTF-8, [should_inspect_file]
    returns (without panicking) [false] exactly when the entry is a directory
    or its name ends with [.nfo], and [true] otherwise. *)
Theorem should_inspect_file_spec (e : DirEntry) :
  to_str (entry_file_name e) <> None ->
  exists b, should_inspect_file e = ret b /\
    (b = false <-> entry_is_dir e = true \/
                   exists pre, entry_file_name e = pre ++ ".nfo").
Proof.
  intros Hname. unfold should_inspect_file.
  destruct (entry_is_dir e) eqn:Hdir; simpl.
  - exists false. split; [reflexivity | tauto].
  - unfold to_str in *.
    destruct (utf8_valid_fuel _ _); [|congruence]. simpl.
    exists (negb (ends_with ".nfo" (entry_file_name e))). split; [reflexivity|].
    rewrite <- ends_with_spec. destruct (ends_with _ _); simpl; intuition congruence.
Qed.

(** ** Lemmas on the monad *)

Lemma result_bind {A B} (m : M A) (k : A -> M B) :
  result_of (bind m k)
  = match result_of m with Ret a => result_of (k a) | Panic => Panic end.
Proof. destruct m as [[a|] es]; simpl; [destruct (k a)|]; reflexivity. Qed.

Lemma events_bind {A B} (m : M A) (k : A -> M B) :
  events_of (bind m k)
  = List.app (events_of m)
      (match result_of m with Ret a => events_of (k a) | Panic => [] end).
Proof.
  destruct m as [[a|] es]; simpl; [destruct (k a)|]; simpl; auto using app_nil_r.
Qed.

Lemma result_iter_M {A} (f : A -> M unit) (xs : list A) :
  (forall x, result_of (f x) = Ret tt) -> result_of (iter_M f xs) = Ret tt.
Proof.
  intros Hf. induction xs as [|x xs IH]; simpl; [reflexivity|].
  now rewrite result_bind, Hf.
Qed.

Lemma result_log_metadata (st : Stream) : result_of (log_metadata st) = Ret tt.
Proof. apply result_iter_M. reflexivity. Qed.

Lemma result_log (l : level) (msg : string) : result_of (log l msg) = Ret tt.
Proof. reflexivity. Qed.

Lemma result_println (msg : string) : result_of (println msg) = Ret tt.
Proof. reflexivity. Qed.

Lemma result_ret {A} (a : A) : result_of (ret a) = Ret a.
Proof. reflexivity. Qed.

(** One step through a chain of binds whose heads are known. *)
Ltac mstep :=
  repeat progress (rewrite ?result_bind, ?result_log, ?result_println,
                     ?result_ret, ?result_log_metadata; cbv beta iota zeta).

Lemma analyze_context_result (path : string) (context : Context) :
  result_of (analyze_context path context)
  = Ret (Some (to_string_lossy path ++ nl ++ tab ++ "Duration: " ++
               format_duration (from_micros (try_into_u64_or_0 (ctx_duration context))) ++
               nl ++ tab ++ "Bit rate: " ++ format_bit_rate (ctx_bit_rate context) ++
               nl ++ tab ++ join (nl ++ tab) (best_descriptions context))).
Proof.
  unfold analyze_context, best_descriptions.
  mstep.
  destruct (best context Video) as [sv|], (best context Audio) as [sa|]; mstep;
    (rewrite result_iter_M; [reflexivity|]); intros x; now mstep.
Qed.

Lemma analyze_path_result (input : string -> option Context) (path : string) :
  result_of (analyze_path input path)
  = match input path with
    | Some context => result_of (analyze_context path context)
    | None => Ret None
    end.
Proof. unfold analyze_path. destruct (input path); reflexivity. Qed.

(** C7: the MIME check does not gate the summary.  Replacing the declared
    MIME types of every container, whatever they are, leaves the result of
    [analyze_path] unchanged, and every container that opens yields a
    summary whether or not one of its MIME types starts with [audio] or
    [video]. *)
Theorem analyze_path_ignores_mime
    (input : string -> option Context) (path : string) (ms : list string) :
  result_of (analyze_path (fun q => option_map (with_mime_types ms) (input q)) path)
  = result_of (analyze_path input path) /\
  (forall context, input path = Some context ->
     exists summary, result_of (analyze_path input path) = Ret (Some summary)).
Proof.
  split.
  - rewrite !analyze_path_result. destruct (input path) as [c|]; simpl; [|reflexivity].
    now rewrite !analyze_context_result.
  - intros c Hc. rewrite analyze_path_result, Hc, analyze_context_result. eauto.
Qed.

(** C8: the summary's duration is the container's duration read as
    microseconds: [Duration::from_micros] of it when it is non-negative, and
    the zero span when it is negative (the "no value" of ffmpeg,
    [i64::MIN], included); the span then holds exactly that many
    microseconds.  The summary is given whole, so the Duration field is
    exactly [format_duration] of that span, followed by the bit rate line. *)
Theorem analyze_path_duration
    (input : string -> option Context) (path : string) (context : Context) :
  input path = Some context ->
  let span := if (ctx_duration context <? 0)%Z then duration_zero
              else from_micros (Z.to_N (ctx_duration context)) in
  result_of (analyze_path input path)
  = Ret (Some (to_string_lossy path ++ nl ++ tab ++ "Duration: " ++
               format_duration span ++
               nl ++ tab ++ "Bit rate: " ++ format_bit_rate (ctx_bit_rate context) ++
               nl ++ tab ++ join (nl ++ tab) (best_descriptions context))) /\
  ((0 <= ctx_duration context)%Z ->
     (as_secs span * 1000000 + subsec_nanos span / 1000)%N = Z.to_N (ctx_duration context) /\
     (subsec_nanos span < 1000000000)%N) /\
  ((ctx_duration context < 0)%Z -> span = duration_zero).
Proof.
  intros Hin span. subst span. split; [|split].
  - rewrite analyze_path_result, Hin, analyze_context_result.
    unfold try_into_u64_or_0.
    destruct (ctx_duration context <? 0)%Z; reflexivity.
  - intros H. rewrite (proj2 (Z.ltb_ge _ _) H). simpl.
    set (u := Z.to_N (ctx_duration context)).
    pose proof (N.mod_lt u 1000000 ltac:(discriminate)).
    rewrite N.div_mul by discriminate. split; [|lia].
    rewrite (N.div_mod u 1000000) at 3 by discriminate. lia.
  - intros H. now rewrite (proj2 (Z.ltb_lt _ _) H).
Qed.

Lemma filter_map_M_analyze (input : string -> option Context) (paths : list string) :
  result_of (filter_map_M (analyze_path input) paths)
  = Ret (flat_map (fun p => match result_of (analyze_path input p) with
                            | Ret (Some b) => [b] | _ => [] end) paths).
Proof.
  induction paths as [|p ps IH]; [reflexivity|]. simpl.
  rewrite result_bind, analyze_path_result.
  destruct (input p) as [c|]; rewrite ?analyze_context_result; cbv beta iota;
    rewrite result_bind, IH; reflexivity.
Qed.

Lemma count_blocks (input : string -> option Context) (paths : list string) :
  List.length (flat_map (fun p => match result_of (analyze_path input p) with
                                  | Ret (Some b) => [b] | _ => [] end) paths)
  = List.length (filter (fun p => if input p then true else false) paths).
Proof.
  induction paths as [|p ps IH]; [reflexivity|]. simpl.
  rewrite analyze_path_result.
  destruct (input p) as [c|]; rewrite ?analyze_context_result; simpl; auto.
Qed.

(** C6: once the walk has produced the candidate list, the report is the
    newline-join of one block per candidate whose probe succeeded, in order;
    a candidate that fails to open contributes nothing and processing goes
    on (no panic), so the number of blocks is the number of candidates
    that open: with N valid files and one unparsable one, N blocks. *)
Theorem generate_report_blocks
    (input : string -> option Context) (walk_dir : string -> list walk_item)
    (root : string) (paths : list string) :
  result_of (collect_paths (walk_dir root)) = Ret paths ->
  exists blocks,
    result_of (generate_report input walk_dir root) = Ret (Some (join nl blocks)) /\
    blocks = flat_map (fun p => match result_of (analyze_path input p) with
                                | Ret (Some b) => [b] | _ => [] end) paths /\
    List.length blocks = List.length (filter (fun p => if input p then true else false) paths).
Proof.
  intros Hc. eexists. split; [|split; [reflexivity | apply count_blocks]].
  unfold generate_report. rewrite result_bind, Hc. cbv beta iota.
  rewrite result_bind, result_log. cbv beta iota.
  rewrite result_bind, filter_map_M_analyze. reflexivity.
Qed.

Lemma stdout_of_app (es1 es2 : list event) :
  stdout_of (List.app es1 es2) = List.app (stdout_of es1) (stdout_of es2).
Proof. apply flat_map_app. Qed.

Lemma events_should_inspect_file (e : DirEntry) : events_of (should_inspect_file e) = [].
Proof.
  unfold should_inspect_file. destruct (entry_is_dir e); simpl; [reflexivity|].
  destruct (to_str _); reflexivity.
Qed.

(** The walk and its filter write nothing on standard output. *)
Lemma stdout_collect_paths (items : list walk_item) :
  stdout_of (events_of (collect_paths items)) = [].
Proof.
  induction items as [|[e|err] items IH]; cbn [collect_paths]; [reflexivity| |].
  - rewrite events_bind, stdout_of_app, events_should_inspect_file.
    destruct (result_of (should_inspect_file e)); [|reflexivity].
    rewrite events_bind, stdout_of_app, IH.
    destruct (result_of (collect_paths items)); reflexivity.
  - rewrite events_bind, stdout_of_app.
    destruct (error_path err) as [p|]; [|reflexivity].
    cbn [unwrap ret result_of events_of fst snd].
    rewrite events_bind, stdout_of_app.
    destruct (to_str p); [|reflexivity].
    cbn [unwrap ret result_of events_of fst snd].
    rewrite events_bind, stdout_of_app, result_log. cbv beta iota.
    rewrite IH. reflexivity.
Qed.

Lemma result_emit (e : event) : result_of (emit e) = Ret tt.
Proof. reflexivity. Qed.

Lemma main_events (input : string -> option Context) (walk_dir : string -> list walk_item)
    (root : string) :
  events_of (main input walk_dir root)
  = InitSubscriber :: Log Info ("Path: " ++ root) ::
    List.app (events_of (generate_report input walk_dir root))
      (match result_of (generate_report input walk_dir root) with
       | Ret (Some c) => [Stdout (c ++ nl)] | _ => [] end).
Proof.
  unfold main. rewrite events_bind, result_emit. cbv beta iota.
  rewrite events_bind, result_log. cbv beta iota.
  rewrite events_bind. cbn [events_of emit log fst snd List.app].
  destruct (result_of (generate_report input walk_dir root)) as [[c|]|]; reflexivity.
Qed.

Lemma main_result (input : string -> option Context) (walk_dir : string -> list walk_item)
    (root : string) :
  result_of (main input walk_dir root)
  = match result_of (generate_report input walk_dir root) with
    | Ret _ => Ret tt | Panic => Panic end.
Proof.
  unfold main. rewrite result_bind, result_emit. cbv beta iota.
  rewrite result_bind, result_log. cbv beta iota. rewrite result_bind.
  destruct (result_of (generate_report input walk_dir root)) as [[c|]|]; reflexivity.
Qed.

Lemma output_from_true_app (f : level_filter) (es1 es2 : list event) :
  output_from f true (List.app es1 es2)
  = List.app (output_from f true es1) (output_from f true es2).
Proof.
  induction es1 as [|[s|l m|] es1 IH]; cbn [output_from List.app andb]; [reflexivity | | |].
  - now rewrite IH.
  - destruct (enabled f l); [now rewrite IH | exact IH].
  - exact IH.
Qed.

(** The printed lines of standard output are the [println!] lines. *)
Lemma printed_output (f : level_filter) (b : bool) (es : list event) :
  filter is_printed (output_from f b es) = map Printed (stdout_of es).
Proof.
  unfold stdout_of. revert b.
  induction es as [|[s|l m|] es IH]; intros b; cbn [output_from flat_map]; [reflexivity | | |].
  - simpl. now rewrite IH.
  - destruct (b && enabled f l); simpl; apply IH.
  - apply IH.
Qed.

Lemma standard_output_main (f : level_filter) (input : string -> option Context)
    (walk_dir : string -> list walk_item) (root : string) :
  standard_output f (events_of (main input walk_dir root))
  = List.app (output_from f true (Log Info ("Path: " ++ root) ::
                                  events_of (generate_report input walk_dir root)))
      (match result_of (generate_report input walk_dir root) with
       | Ret (Some c) => [Printed (c ++ nl)] | _ => [] end).
Proof.
  rewrite main_events. unfold standard_output. cbn [output_from].
  change (Log Info ("Path: " ++ root) ::
          List.app (events_of (generate_report input walk_dir root)) ?t)
    with (List.app (Log Info ("Path: " ++ root) :: events_of (generate_report input walk_dir root)) t).
  rewrite output_from_true_app.
  destruct (result_of (generate_report input walk_dir root)) as [[c|]|]; cbv beta iota;
    destruct (enabled f Info); rewrite ?app_nil_r; reflexivity.
Qed.

(** C3 (as the code has it): when the filtered candidate list is empty,
    [generate_report] still returns a report, the empty string, and [main]
    prints it.  Standard output then holds the log records the installed
    subscriber lets through (the [Path:] record, the walk's warnings, the
    path count), then one empty line, the only line [main] prints. *)
Theorem generate_report_empty (f : level_filter)
    (input : string -> option Context) (walk_dir : string -> list walk_item)
    (root : string) :
  result_of (collect_paths (walk_dir root)) = Ret [] ->
  result_of (generate_report input walk_dir root) = Ret (Some "") /\
  standard_output f (events_of (main input walk_dir root))
  = List.app (output_from f true (Log Info ("Path: " ++ root) ::
                                  List.app (events_of (collect_paths (walk_dir root)))
                                    [Log Debug "Discovered path count num_paths=0"]))
             [Printed nl] /\
  filter is_printed (standard_output f (events_of (main input walk_dir root))) = [Printed nl].
Proof.
  intros Hc.
  assert (Hr : result_of (generate_report input walk_dir root) = Ret (Some "")).
  { unfold generate_report. rewrite result_bind, Hc. reflexivity. }
  assert (Hev : events_of (generate_report input walk_dir root)
                = List.app (events_of (collect_paths (walk_dir root)))
                    [Log Debug "Discovered path count num_paths=0"]).
  { unfold generate_report. rewrite events_bind, Hc. cbv beta iota.
    rewrite events_bind, result_log. reflexivity. }
  split; [exact Hr|].
  rewrite standard_output_main, Hr, Hev. split; [reflexivity|].
  rewrite filter_app, printed_output.
  change (stdout_of (Log Info ("Path: " ++ root) :: ?es)) with (stdout_of es).
  rewrite stdout_of_app, stdout_collect_paths. reflexivity.
Qed.

(** C3, counterexample: a tree holding only its root directory and an
    [.nfo] sidecar has no candidate, yet [main] prints a report, an empty
    line; at the default [INFO] level standard output holds the [Path:]
    record and that line. *)
Lemma generate_report_empty_prints :
  result_of (collect_paths (sidecar_walk "/s")) = Ret [] /\
  result_of (generate_report demo_input sidecar_walk "/s") = Ret (Some "") /\
  standard_output INFO (events_of (main demo_input sidecar_walk "/s"))
  = [Logged Info "Path: /s"; Printed nl].
Proof. vm_compute. repeat split. Qed.

(** C4: probing a file whose container has a best video and a best audio
    stream writes two [println!] lines to standard output, both labelled
    "video". *)
Theorem analyze_path_prints_to_stdout :
  stdout_of (events_of (analyze_path movie_input "/m/movie.mkv"))
  = ["Best video stream index: 0" ++ nl; "Best video stream index: 1" ++ nl] /\
  exists summary, result_of (analyze_path movie_input "/m/movie.mkv") = Ret (Some summary).
Proof. vm_compute. split; [reflexivity | eexists; reflexivity]. Qed.

Lemma collect_paths_panics (e : DirEntry) (items1 items2 : list walk_item) :
  result_of (should_inspect_file e) = Panic ->
  result_of (collect_paths (List.app items1 (WOk e :: items2))) = Panic.
Proof.
  intros He. induction items1 as [|[r|err] items1 IH]; cbn [collect_paths List.app].
  - now rewrite result_bind, He.
  - rewrite result_bind. destruct (result_of (should_inspect_file r)); [|reflexivity].
    now rewrite result_bind, IH.
  - rewrite result_bind. destruct (error_path err) as [p|]; [|reflexivity].
    cbn [unwrap ret result_of fst]. rewrite result_bind.
    destruct (to_str p); [|reflexivity].
    cbn [unwrap ret result_of fst]. rewrite result_bind, result_log. exact IH.
Qed.

Lemma bind_ret_l {A B} (a : A) (k : A -> M B) : bind (ret a) k = k a.
Proof. unfold bind, ret. destruct (k a). reflexivity. Qed.

Lemma bind_ret_r {A} (m : M A) : bind m (fun x => ret x) = m.
Proof. destruct m as [[a|] es]; simpl; [now rewrite app_nil_r | reflexivity]. Qed.

(** An entry rejected without a panic leaves the walk's filter as if it
    were not there. *)
Lemma collect_paths_skip (e : DirEntry) (items1 items2 : list walk_item) :
  should_inspect_file e = ret false ->
  collect_paths (List.app items1 (WOk e :: items2)) = collect_paths (List.app items1 items2).
Proof.
  intros He. induction items1 as [|[r|err] items1 IH]; cbn [collect_paths List.app].
  - rewrite He, bind_ret_l. cbv beta iota. apply bind_ret_r.
  - now rewrite IH.
  - now rewrite IH.
Qed.

(** C9 (as the code has it): a non-directory entry whose name is not valid
    UTF-8 makes [should_inspect_file] panic (the [unwrap] of [to_str]); the
    panic ends [generate_report] and [main] wherever the entry sits in the
    walk, and the report is never printed: nothing but the log records
    written before the panic reaches standard output.  A directory entry is
    rejected before its name is read, so one with such a name raises no
    error: the walk's filter proceeds as if it were absent. *)
Theorem should_inspect_file_non_utf8 (e : DirEntry) :
  to_str (entry_file_name e) = None ->
  (entry_is_dir e = false ->
     result_of (should_inspect_file e) = Panic /\
     (forall f input walk_dir root items1 items2,
        walk_dir root = List.app items1 (WOk e :: items2) ->
        result_of (generate_report input walk_dir root) = Panic /\
        result_of (main input walk_dir root) = Panic /\
        filter is_printed (standard_output f (events_of (main input walk_dir root))) = [])) /\
  (entry_is_dir e = true ->
     should_inspect_file e = ret false /\
     (forall items1 items2,
        collect_paths (List.app items1 (WOk e :: items2))
        = collect_paths (List.app items1 items2))).
Proof.
  intros Hname. split.
  - intros Hdir.
    assert (He : result_of (should_inspect_file e) = Panic).
    { unfold should_inspect_file. now rewrite Hdir, Hname. }
    split; [exact He|]. intros f input walk_dir root items1 items2 Hw.
    assert (Hc : result_of (collect_paths (walk_dir root)) = Panic).
    { rewrite Hw. now apply collect_paths_panics. }
    assert (Hg : result_of (generate_report input walk_dir root) = Panic).
    { unfold generate_report. now rewrite result_bind, Hc. }
    split; [exact Hg|]. split; [now rewrite main_result, Hg|].
    rewrite standard_output_main, Hg, app_nil_r, printed_output.
    change (stdout_of (Log Info ("Path: " ++ root) :: ?es)) with (stdout_of es).
    unfold generate_report. rewrite events_bind, Hc, app_nil_r, stdout_collect_paths.
    reflexivity.
  - intros Hdir.
    assert (He : should_inspect_file e = ret false).
    { unfold should_inspect_file. now rewrite Hdir. }
    split; [exact He|]. intros items1 items2. now apply collect_paths_skip.
Qed.

(** C9, counterexample: a directory whose name is not valid UTF-8 is
    rejected by [should_inspect_file] without looking at the name: no panic,
    no error, and the walk goes on. *)
Lemma non_utf8_directory_skipped :
  to_str bad_name = None /\
  result_of (should_inspect_file (mkDirEntry ("/m/" ++ bad_name) true bad_name)) = Ret false /\
  result_of (collect_paths [WOk (mkDirEntry ("/m/" ++ bad_name) true bad_name);
                            WOk (mkDirEntry "/m/song.mp3" false "song.mp3")])
  = Ret ["/m/song.mp3"].
Proof. vm_compute. repeat split. Qed.

Lemma string_app_assoc (a b c : string) : (a ++ b) ++ c = a ++ (b ++ c).
Proof. induction a as [|x a IH]; simpl; [reflexivity | now rewrite IH]. Qed.

Lemma string_length_app (a b : string) :
  String.length (a ++ b) = (String.length a + String.length b)%nat.
Proof. induction a as [|x a IH]; simpl; [reflexivity | now rewrite IH]. Qed.

Lemma all_digits_app (a b : string) :
  all_digits (a ++ b) = all_digits a && all_digits b.
Proof. unfold all_digits. now rewrite list_ascii_of_string_app, forallb_app. Qed.

Lemma digit_char_digit (n : N) : is_digit (digit_char (n mod 10)) = true.
Proof.
  unfold is_digit, in_range, byte_at, digit_char.
  pose proof (N.mod_lt n 10 ltac:(discriminate)) as H.
  generalize dependent (n mod 10)%N. intros d H.
  rewrite N_ascii_embedding by lia.
  apply andb_true_intro; split; apply N.leb_le; lia.
Qed.

Lemma dec_digits_facts (fuel : nat) (n : N) (acc : string) :
  (String.length acc <= String.length (dec_digits fuel n acc))%nat /\
  (fuel <> O -> (1 + String.length acc <= String.length (dec_digits fuel n acc))%nat) /\
  (all_digits acc = true -> all_digits (dec_digits fuel n acc) = true).
Proof.
  revert n acc. induction fuel as [|f IH]; intros n acc; simpl.
  - split; [lia | split; [congruence | auto]].
  - set (acc' := String (digit_char (n mod 10)) acc).
    assert (Hd : all_digits acc = true -> all_digits acc' = true).
    { intros H. unfold acc', all_digits. simpl. now rewrite digit_char_digit. }
    destruct (n <? 10)%N.
    + subst acc'. simpl. split; [lia | split; [lia | auto]].
    + destruct (IH (n / 10)%N acc') as [H1 [_ H3]]. subst acc'. simpl in *.
      split; [lia | split; [lia | auto]].
Qed.

Lemma string_of_N_facts (n : N) :
  (1 <= String.length (string_of_N n))%nat /\ all_digits (string_of_N n) = true.
Proof.
  unfold string_of_N. destruct (dec_digits_facts (S (N.size_nat n)) n "") as [_ [H2 H3]].
  split; [simpl in H2; apply H2; discriminate | now apply H3].
Qed.

Lemma pad2_facts (n : N) :
  (2 <= String.length (pad2 n))%nat /\ all_digits (pad2 n) = true.
Proof.
  destruct (string_of_N_facts n) as [H1 H2]. unfold pad2.
  destruct (Nat.ltb_spec (String.length (string_of_N n)) 2); simpl; auto.
  split; [lia | exact H2].
Qed.

Lemma pad2_small_check :
  forallb (fun k => Nat.eqb (String.length (pad2 (N.of_nat k))) 2) (seq 0 100) = true.
Proof. vm_compute. reflexivity. Qed.

Lemma pad2_lt_100 (n : N) : (n < 100)%N -> String.length (pad2 n) = 2%nat.
Proof.
  intros H. pose proof pad2_small_check as Hc. rewrite forallb_forall in Hc.
  specialize (Hc (N.to_nat n)). rewrite N2Nat.id in Hc.
  apply Nat.eqb_eq, Hc, in_seq. lia.
Qed.

Example claimed_shape_tests :
  claimed_shape "01:07:59:57" = true /\ claimed_shape "00:01.12" = true /\
  claimed_shape "07:59:57" = true /\ claimed_shape "1:00" = false.
Proof. vm_compute. repeat split. Qed.

Lemma byte_digit_char (d : N) : (d < 10)%N -> byte_at (digit_char d) = (48 + d)%N.
Proof. intros H. unfold byte_at, digit_char. apply N_ascii_embedding. lia. Qed.

Lemma dec_digits_value (fuel : nat) (n : N) (acc : string) :
  (n < 10 ^ N.of_nat fuel)%N ->
  exists ds, list_ascii_of_string (dec_digits fuel n acc) = List.app ds (list_ascii_of_string acc) /\
             fold_left digit_step ds 0%N = n.
Proof.
  revert n acc. induction fuel as [|f IH]; intros n acc Hn.
  - exists []. split; [reflexivity|]. simpl in *. lia.
  - rewrite Nat2N.inj_succ, N.pow_succ_r' in Hn.
    pose proof (N.mod_lt n 10 ltac:(discriminate)) as Hm.
    pose proof (N.div_mod' n 10) as Hd.
    cbn [dec_digits]. destruct (N.ltb_spec n 10) as [Hlt|Hge].
    + exists [digit_char (n mod 10)]. split; [reflexivity|].
      cbn. unfold digit_step. rewrite byte_digit_char by exact Hm.
      rewrite N.mod_small by exact Hlt. lia.
    + destruct (IH (n / 10)%N (String (digit_char (n mod 10)) acc)) as [ds [H1 H2]].
      { apply N.Div0.div_lt_upper_bound; lia. }
      exists (List.app ds [digit_char (n mod 10)]). split.
      * rewrite H1. simpl. now rewrite <- app_assoc.
      * rewrite fold_left_app, H2. cbn [fold_left]. unfold digit_step.
        rewrite byte_digit_char by exact Hm. clear IH H1 H2. generalize dependent (n / 10)%N. generalize dependent (n mod 10)%N. intros. lia.
Qed.

Lemma size_nat_bound (n : N) : (n < 10 ^ N.of_nat (S (N.size_nat n)))%N.
Proof.
  destruct n as [|p]; [reflexivity|]. cbn [N.size_nat].
  induction p as [p IH|p IH|]; cbn [Pos.size_nat].
  - rewrite Nat2N.inj_succ, N.pow_succ_r'. lia.
  - rewrite Nat2N.inj_succ, N.pow_succ_r'. lia.
  - reflexivity.
Qed.

Lemma string_of_N_value (n : N) : digits_value (string_of_N n) = n.
Proof.
  unfold digits_value, string_of_N.
  destruct (dec_digits_value (S (N.size_nat n)) n "" (size_nat_bound n)) as [ds [H1 H2]].
  rewrite H1. simpl. now rewrite app_nil_r.
Qed.

Lemma pad2_value (n : N) : digits_value (pad2 n) = n.
Proof.
  unfold pad2. destruct (String.length (string_of_N n) <? 2)%nat;
    [|apply string_of_N_value].
  unfold digits_value. cbn [list_ascii_of_string String.append].
  exact (string_of_N_value n).
Qed.

Lemma list_ascii_of_string_length (s : string) :
  List.length (list_ascii_of_string s) = String.length s.
Proof. induction s as [|c s IH]; simpl; [reflexivity | now rewrite IH]. Qed.

Lemma digits_fold_bound (l : list ascii) (acc : N) :
  forallb is_digit l = true ->
  (fold_left digit_step l acc < (acc + 1) * 10 ^ N.of_nat (List.length l))%N.
Proof.
  revert acc. induction l as [|c l IH]; intros acc Hl; cbn [fold_left List.length].
  { change (N.of_nat 0) with 0%N. rewrite N.pow_0_r. lia. }
  cbn [forallb] in Hl. apply andb_prop in Hl as [Hc Hl].
  unfold is_digit, in_range in Hc. apply andb_prop in Hc as [_ Hc]. apply N.leb_le in Hc.
  specialize (IH (digit_step acc c) Hl).
  rewrite Nat2N.inj_succ, N.pow_succ_r'.
  generalize dependent (fold_left digit_step l (digit_step acc c)). intros v Hv.
  unfold digit_step in Hv.
  generalize dependent (10 ^ N.of_nat (List.length l))%N. intros P Hv.
  generalize dependent (byte_at c). intros d Hd Hv. nia.
Qed.

(** A field of fewer than three digits holds a number below 100. *)
Lemma pad2_long (n : N) : (100 <= n)%N -> (3 <= String.length (pad2 n))%nat.
Proof.
  intros Hn. destruct (Nat.le_gt_cases 3 (String.length (pad2 n))) as [|Hlt]; [assumption|].
  exfalso. pose proof (pad2_value n) as Hv. pose proof (proj2 (pad2_facts n)) as Hd.
  unfold digits_value in Hv. unfold all_digits in Hd.
  pose proof (digits_fold_bound _ 0 Hd) as Hb. rewrite Hv in Hb.
  rewrite list_ascii_of_string_length in Hb.
  destruct (String.length (pad2 n)) as [|[|[|k]]]; simpl in Hb; lia.
Qed.

(** C1 (as the code has it): [format_duration] writes the days, zero-padded
    to at least two digits (exactly two below 100 days, three or more from
    100 days on), only when the days are positive; the hours
    modulo 24 in two digits only when the total hours are positive; always
    the minutes modulo 60 and the seconds modulo 60 in two digits; then the
    fractional suffix, empty for a whole number of seconds.  The spec's five
    values follow. *)
Theorem format_duration_rendering (d : Duration) :
  let minutes := (as_secs d / 60)%N in
  let hours := (minutes / 60)%N in
  let days := (hours / 24)%N in
  format_duration d =
    (if (0 <? days)%N then pad2 days ++ ":" else "") ++
    (if (0 <? hours)%N then pad2 (hours mod 24) ++ ":" else "") ++
    pad2 (minutes mod 60) ++ ":" ++ pad2 (as_secs d mod 60) ++ frac_suffix d /\
  (2 <= String.length (pad2 days))%nat /\
  ((days < 100)%N -> String.length (pad2 days) = 2%nat) /\
  ((100 <= days)%N -> (3 <= String.length (pad2 days))%nat) /\
  String.length (pad2 (hours mod 24)) = 2%nat /\
  String.length (pad2 (minutes mod 60)) = 2%nat /\
  String.length (pad2 (as_secs d mod 60)) = 2%nat /\
  (subsec_nanos d = 0%N -> frac_suffix d = "") /\
  format_duration (from_secs 0) = "00:00" /\
  format_duration (from_secs 60) = "01:00" /\
  format_duration (from_secs 3600) = "01:00:00" /\
  format_duration (from_secs 86400) = "01:00:00:00" /\
  format_duration (from_secs 115197) = "01:07:59:57".
Proof.
  intros minutes hours days.
  split; [reflexivity|].
  split; [apply pad2_facts|].
  split; [apply pad2_lt_100|].
  split; [apply pad2_long|].
  split; [apply pad2_lt_100; apply N.lt_trans with 24%N; [apply N.mod_lt; discriminate|reflexivity]|].
  split; [apply pad2_lt_100; apply N.lt_trans with 60%N; [apply N.mod_lt; discriminate|reflexivity]|].
  split; [apply pad2_lt_100; apply N.lt_trans with 60%N; [apply N.mod_lt; discriminate|reflexivity]|].
  split; [intros H; unfold frac_suffix, subsec_scaled; rewrite H; reflexivity|].
  vm_compute. repeat split.
Qed.

(** C1, counterexample: at 100 days the days prefix has three digits. *)
Lemma format_duration_hundred_days :
  format_duration (from_secs 8640000) = "100" ++ ":00:00:00".
Proof. vm_compute. reflexivity. Qed.

(** C10, counterexample: at 100 days the result has none of the shapes
    [MM:SS], [HH:MM:SS], [DD:HH:MM:SS]. *)
Lemma format_duration_hundred_days_shape :
  claimed_shape (format_duration (from_secs 8640000)) = false.
Proof. vm_compute. reflexivity. Qed.

Lemma frac_suffix_shape (d : Duration) :
  frac_suffix d = "" \/ exists k, frac_suffix d = "." ++ string_of_N k.
Proof.
  unfold frac_suffix. destruct (PrimFloat.ltb _ _); [right; eexists; reflexivity | now left].
Qed.

Lemma days_pos_hours_pos (h : N) : (0 < h / 24)%N -> (0 < h)%N.
Proof.
  intros H. destruct (N.eq_dec h 0) as [->|]; [discriminate | lia].
Qed.

Lemma pad2_mod_len (n k : N) : (k <= 100)%N -> (0 < k)%N ->
  String.length (pad2 (n mod k)) = 2%nat.
Proof.
  intros Hk Hk0. apply pad2_lt_100.
  pose proof (N.mod_lt n k ltac:(lia)). lia.
Qed.

(** C10 (as the code has it): [format_duration] returns 2, 3 or 4 fields of
    digits joined by [:], then an empty suffix or a dot and digits; every
    field after the first has exactly two digits and the first at least
    two (exactly two below 100 days); four fields exactly when the days are
    positive and at least three exactly when the total hours are positive,
    so a days field always comes with an hours field. *)
Theorem format_duration_segments (d : Duration) :
  let hours := (as_secs d / 60 / 60)%N in
  let days := (hours / 24)%N in
  exists segs frac,
    format_duration d = join ":" segs ++ frac /\
    (List.length segs = 2 \/ List.length segs = 3 \/ List.length segs = 4)%nat /\
    Forall (fun s => all_digits s = true /\ (2 <= String.length s)%nat) segs /\
    Forall (fun s => String.length s = 2%nat) (tl segs) /\
    ((days < 100)%N -> Forall (fun s => String.length s = 2%nat) segs) /\
    (List.length segs = 4%nat <-> (0 < days)%N) /\
    ((3 <= List.length segs)%nat <-> (0 < hours)%N) /\
    (frac = "" \/ exists k, frac = "." ++ string_of_N k).
Proof.
  intros hours days.
  pose proof (pad2_facts days) as Hd. pose proof (pad2_facts (hours mod 24)) as Hh.
  pose proof (pad2_facts (as_secs d / 60 mod 60)) as Hmin.
  pose proof (pad2_facts (as_secs d mod 60)) as Hsec.
  pose proof (pad2_mod_len hours 24 ltac:(lia) ltac:(lia)) as Lh.
  pose proof (pad2_mod_len (as_secs d / 60) 60 ltac:(lia) ltac:(lia)) as Lmin.
  pose proof (pad2_mod_len (as_secs d) 60 ltac:(lia) ltac:(lia)) as Lsec.
  unfold format_duration. cbv zeta. fold hours. fold days.
  destruct (N.ltb_spec 0 days) as [HD|HD].
  - assert (HH : (0 < hours)%N) by (now apply days_pos_hours_pos).
    rewrite (proj2 (N.ltb_lt _ _) HH).
    exists [pad2 days; pad2 (hours mod 24); pad2 (as_secs d / 60 mod 60);
            pad2 (as_secs d mod 60)], (frac_suffix d).
    split; [repeat progress (simpl; rewrite ?string_app_assoc); reflexivity|].
    split; [simpl; auto|].
    split; [repeat constructor; tauto|].
    split; [simpl; repeat constructor; assumption|].
    split; [intros Hlt; repeat constructor; auto using pad2_lt_100|].
    split; [simpl; split; [lia | auto]|].
    split; [simpl; split; [lia | auto]|].
    apply frac_suffix_shape.
  - assert (HD0 : days = 0%N) by lia.
    destruct (N.ltb_spec 0 hours) as [HH|HH].
    + exists [pad2 (hours mod 24); pad2 (as_secs d / 60 mod 60);
              pad2 (as_secs d mod 60)], (frac_suffix d).
      split; [repeat progress (simpl; rewrite ?string_app_assoc); reflexivity|].
      split; [simpl; auto|].
      split; [repeat constructor; tauto|].
      split; [simpl; repeat constructor; assumption|].
      split; [intros Hlt; repeat constructor; auto|].
      split; [simpl; split; [discriminate | lia]|].
      split; [simpl; split; [lia | auto]|].
      apply frac_suffix_shape.
    + exists [pad2 (as_secs d / 60 mod 60); pad2 (as_secs d mod 60)], (frac_suffix d).
      split; [repeat progress (simpl; rewrite ?string_app_assoc); reflexivity|].
      split; [simpl; auto|].
      split; [repeat constructor; tauto|].
      split; [simpl; repeat constructor; assumption|].
      split; [intros Hlt; repeat constructor; auto|].
      split; [simpl; split; [discriminate | lia]|].
      split; [simpl; split; [lia | lia]|].
      apply frac_suffix_shape.
Qed.

(** ** Witnesses *)

Lemma should_inspect_file_spec_witness :
  let e := mkDirEntry "/m/readme.nfo" false "readme.nfo" in
  to_str (entry_file_name e) <> None /\
  exists b, should_inspect_file e = ret b /\
    (b = false <-> entry_is_dir e = true \/
                   exists pre, entry_file_name e = pre ++ ".nfo").
Proof.
  intros e. split.
  - vm_compute. discriminate.
  - apply should_inspect_file_spec. vm_compute. discriminate.
Defined.

Lemma generate_report_blocks_witness :
  let paths := ["/m/song.mp3"; "/m/broken.mkv"] in
  result_of (collect_paths (demo_walk "/m")) = Ret paths /\
  exists blocks,
    result_of (generate_report demo_input demo_walk "/m") = Ret (Some (join nl blocks)) /\
    blocks = flat_map (fun p => match result_of (analyze_path demo_input p) with
                                | Ret (Some b) => [b] | _ => [] end) paths /\
    List.length blocks
    = List.length (filter (fun p => if demo_input p then true else false) paths).
Proof.
  intros paths. split.
  - vm_compute. reflexivity.
  - apply generate_report_blocks. vm_compute. reflexivity.
Defined.

Lemma analyze_path_duration_witness :
  live_input "/m/live.ts" = Some live_context /\
  let span := if (ctx_duration live_context <? 0)%Z then duration_zero
              else from_micros (Z.to_N (ctx_duration live_context)) in
  (result_of (analyze_path live_input "/m/live.ts")
   = Ret (Some (to_string_lossy "/m/live.ts" ++ nl ++ tab ++ "Duration: " ++
                format_duration span ++
                nl ++ tab ++ "Bit rate: " ++ format_bit_rate (ctx_bit_rate live_context) ++
                nl ++ tab ++ join (nl ++ tab) (best_descriptions live_context))) /\
   ((0 <= ctx_duration live_context)%Z ->
      (as_secs span * 1000000 + subsec_nanos span / 1000)%N
      = Z.to_N (ctx_duration live_context) /\
      (subsec_nanos span < 1000000000)%N) /\
   ((ctx_duration live_context < 0)%Z -> span = duration_zero)) /\
  span = duration_zero /\ format_duration span = "00:00".
Proof.
  split; [vm_compute; reflexivity|].
  split; [apply analyze_path_duration; vm_compute; reflexivity|].
  split; vm_compute; reflexivity.
Defined.

Lemma generate_report_empty_witness :
  result_of (collect_paths (sidecar_walk "/s")) = Ret [] /\
  result_of (generate_report demo_input sidecar_walk "/s") = Ret (Some "") /\
  standard_output INFO (events_of (main demo_input sidecar_walk "/s"))
  = List.app (output_from INFO true (Log Info ("Path: " ++ "/s") ::
                                     List.app (events_of (collect_paths (sidecar_walk "/s")))
                                       [Log Debug "Discovered path count num_paths=0"]))
             [Printed nl] /\
  filter is_printed (standard_output INFO (events_of (main demo_input sidecar_walk "/s")))
  = [Printed nl].
Proof.
  split.
  - vm_compute. reflexivity.
  - apply generate_report_empty. vm_compute. reflexivity.
Defined.

Lemma should_inspect_file_non_utf8_witness :
  let e := mkDirEntry ("/m/" ++ bad_name) false bad_name in
  let d := mkDirEntry ("/m/" ++ bad_name) true bad_name in
  to_str bad_name = None /\
  result_of (should_inspect_file e) = Panic /\
  (forall f input walk_dir root items1 items2,
     walk_dir root = List.app items1 (WOk e :: items2) ->
     result_of (generate_report input walk_dir root) = Panic /\
     result_of (main input walk_dir root) = Panic /\
     filter is_printed (standard_output f (events_of (main input walk_dir root))) = []) /\
  should_inspect_file d = ret false /\
  (forall items1 items2,
     collect_paths (List.app items1 (WOk d :: items2)) = collect_paths (List.app items1 items2)).
Proof.
  intros e d.
  assert (Hb : to_str bad_name = None) by (vm_compute; reflexivity).
  split; [exact Hb|].
  destruct (should_inspect_file_non_utf8 e Hb) as [He _].
  destruct (should_inspect_file_non_utf8 d Hb) as [_ Hd].
  destruct (He eq_refl) as [He1 He2]. destruct (Hd eq_refl) as [Hd1 Hd2].
  split; [exact He1|]. split; [exact He2|]. split; [exact Hd1 | exact Hd2].
Defined.

(** ** Further properties of the program *)

Lemma stdout_log (l : level) (msg : string) : stdout_of (events_of (log l msg)) = [].
Proof. reflexivity. Qed.

Lemma stdout_println (msg : string) : stdout_of (events_of (println msg)) = [msg ++ nl].
Proof. reflexivity. Qed.

Lemma stdout_ret {A} (a : A) : stdout_of (events_of (ret a)) = [].
Proof. reflexivity. Qed.

Lemma stdout_iter_M {A} (f : A -> M unit) (xs : list A) :
  (forall x, result_of (f x) = Ret tt) ->
  (forall x, stdout_of (events_of (f x)) = []) ->
  stdout_of (events_of (iter_M f xs)) = [].
Proof.
  intros Hr Hs. induction xs as [|x xs IH]; [reflexivity|]. cbn [iter_M].
  rewrite events_bind, stdout_of_app, Hs, Hr. exact IH.
Qed.

Lemma stdout_log_metadata (st : Stream) : stdout_of (events_of (log_metadata st)) = [].
Proof. apply stdout_iter_M; reflexivity. Qed.

(** One step through a chain of binds, following standard output. *)
Ltac estep :=
  repeat progress (rewrite ?events_bind, ?stdout_of_app, ?result_bind, ?result_log,
                     ?result_println, ?result_ret, ?result_log_metadata,
                     ?stdout_log, ?stdout_println, ?stdout_ret, ?stdout_log_metadata;
                   cbv beta iota zeta).

Lemma list_of_option_app_nil {A} (o : option A) : List.app (list_of_option o) [] = list_of_option o.
Proof. destruct o; reflexivity. Qed.

(** Probing prints ([println!]) one line per best stream found, video
    first, both labelled "video", and nothing else; a file that does not
    open prints nothing (its warning is a log record). *)
Theorem analyze_path_stdout (input : string -> option Context) (path : string) :
  stdout_of (events_of (analyze_path input path))
  = match input path with
    | None => []
    | Some context =>
        map (fun stream => "Best video stream index: " ++ string_of_N (index stream) ++ nl)
            (List.app (list_of_option (best context Video)) (list_of_option (best context Audio)))
    end.
Proof.
  unfold analyze_path. destruct (input path) as [c|]; [|reflexivity].
  unfold analyze_context.
  destruct (best c Video) as [sv|], (best c Audio) as [sa|]; estep;
    (rewrite stdout_iter_M; [| intros x; now estep | intros x; now estep]);
    rewrite ?result_iter_M by (intros x; now estep); cbv beta iota;
    rewrite ?stdout_ret; simpl; rewrite ?string_app_assoc; reflexivity.
Qed.

Lemma string_app_nil (s : string) : s ++ "" = s.
Proof. induction s as [|c s IH]; simpl; [reflexivity | now rewrite IH]. Qed.

(** A container with neither a best video nor a best audio stream still
    gets a summary; its last line is then an empty line holding one tab. *)
Theorem analyze_path_no_streams
    (input : string -> option Context) (path : string) (context : Context) :
  input path = Some context ->
  best context Video = None -> best context Audio = None ->
  result_of (analyze_path input path)
  = Ret (Some (to_string_lossy path ++ nl ++ tab ++ "Duration: " ++
               format_duration (from_micros (try_into_u64_or_0 (ctx_duration context))) ++
               nl ++ tab ++ "Bit rate: " ++ format_bit_rate (ctx_bit_rate context) ++
               nl ++ tab)).
Proof.
  intros Hin Hv Ha. rewrite analyze_path_result, Hin, analyze_context_result.
  unfold best_descriptions. rewrite Hv, Ha. simpl join. now rewrite string_app_nil.
Qed.

Lemma utf8_valid_ascii (fuel : nat) (l : list ascii) :
  (List.length l <= fuel)%nat ->
  forallb (fun c => (byte_at c <? 128)%N) l = true ->
  utf8_valid_fuel fuel l = true.
Proof.
  revert fuel. induction l as [|c l IH]; intros fuel Hf Ha; [destruct fuel; reflexivity|].
  destruct fuel as [|f]; [simpl in Hf; lia|].
  simpl in Ha. apply andb_prop in Ha as [Hc Hl].
  simpl. unfold utf8_head, lead_info.
  rewrite (proj2 (N.leb_le (byte_at c) 127)) by (apply N.ltb_lt in Hc; lia).
  simpl. apply IH; [simpl in Hf; lia | exact Hl].
Qed.

(** A name made only of ASCII bytes is valid UTF-8, so [should_inspect_file]
    never panics on an entry with such a name. *)
Theorem ascii_names_never_panic (e : DirEntry) :
  forallb (fun c => (byte_at c <? 128)%N) (list_ascii_of_string (entry_file_name e)) = true ->
  to_str (entry_file_name e) = Some (entry_file_name e) /\
  exists b, should_inspect_file e = ret b.
Proof.
  intros Ha.
  assert (Hs : to_str (entry_file_name e) = Some (entry_file_name e)).
  { unfold to_str. rewrite utf8_valid_ascii; [reflexivity | lia | exact Ha]. }
  split; [exact Hs|].
  unfold should_inspect_file. destruct (entry_is_dir e); simpl;
    [eexists; reflexivity|].
  rewrite Hs. eexists. reflexivity.
Qed.

Lemma lossy_valid (fuel : nat) (l : list ascii) :
  utf8_valid_fuel fuel l = true -> lossy_fuel fuel l = l.
Proof.
  revert l. induction fuel as [|f IH]; intros l Hv.
  - destruct l; [reflexivity | discriminate].
  - destruct l as [|c rest]; [reflexivity|]. simpl in *.
    destruct (utf8_head c rest) as [n|n]; [|discriminate].
    rewrite IH by exact Hv. apply firstn_skipn.
Qed.

(** When a path is valid UTF-8, the summary of a file that opens starts with
    the path itself, unchanged by the lossy conversion, then a newline. *)
Theorem summary_names_path
    (input : string -> option Context) (path : string) (context : Context) :
  input path = Some context -> to_str path <> None ->
  exists rest, result_of (analyze_path input path) = Ret (Some (path ++ nl ++ rest)).
Proof.
  intros Hin Hv. rewrite analyze_path_result, Hin, analyze_context_result.
  assert (Hl : to_string_lossy path = path).
  { unfold to_str in Hv. unfold to_string_lossy.
    destruct (utf8_valid_fuel _ _) eqn:E; [|congruence].
    rewrite lossy_valid by exact E. apply string_of_list_ascii_of_string. }
  rewrite Hl. eexists. reflexivity.
Qed.

(** [generate_report] never returns [None]: when it does not panic it
    returns a report, so the [None] arm of [main] is never taken. *)
Theorem generate_report_never_none
    (input : string -> option Context) (walk_dir : string -> list walk_item) (root : string) :
  result_of (generate_report input walk_dir root) <> Ret None.
Proof.
  unfold generate_report. rewrite result_bind.
  destruct (result_of (collect_paths (walk_dir root))) as [paths|]; [|discriminate].
  rewrite result_bind, result_log. cbv beta iota.
  rewrite result_bind, filter_map_M_analyze. discriminate.
Qed.

(** Entries the filter phase can get through without a panic: a directory,
    an entry with a UTF-8 name, or a walk error carrying a UTF-8 path. *)
Lemma collect_paths_result (items : list walk_item) :
  Forall (fun it => match it with
                    | WOk e => entry_is_dir e = true \/ to_str (entry_file_name e) <> None
                    | WErr err => exists p, error_path err = Some p /\ to_str p <> None
                    end) items ->
  result_of (collect_paths items)
  = Ret (flat_map (fun it => match it with
                             | WOk e => if entry_is_dir e || ends_with ".nfo" (entry_file_name e)
                                        then [] else [entry_path e]
                             | WErr _ => []
                             end) items).
Proof.
  induction 1 as [|it items Hit Hall IH]; [reflexivity|].
  destruct it as [e|err]; cbn [collect_paths flat_map].
  - rewrite result_bind. unfold should_inspect_file.
    destruct (entry_is_dir e) eqn:Hd; cbn [negb].
    + rewrite result_ret. cbv beta iota. rewrite result_bind, IH. reflexivity.
    + destruct Hit as [Hit|Hit]; [discriminate|].
      destruct (to_str (entry_file_name e)) eqn:Hs; [|congruence].
      unfold to_str in Hs. destruct (utf8_valid_fuel _ _); [|discriminate].
      injection Hs as <-. cbn.
      rewrite result_bind, IH. cbn.
      destruct (ends_with ".nfo" (entry_file_name e)); reflexivity.
  - destruct Hit as [p [Hp Hs]].
    rewrite result_bind, Hp. cbn [unwrap result_of ret fst].
    rewrite result_bind. destruct (to_str p); [|congruence].
    cbn [unwrap result_of ret fst]. rewrite result_bind, result_log. exact IH.
Qed.

(** The filter phase keeps, in walk order, the paths of the entries that are
    neither directories nor named [*.nfo], and drops walk errors, as long as
    every name and error path it has to read is valid UTF-8. *)
Theorem collect_paths_keeps_candidates (items : list walk_item) :
  Forall (fun it => match it with
                    | WOk e => entry_is_dir e = true \/ to_str (entry_file_name e) <> None
                    | WErr err => exists p, error_path err = Some p /\ to_str p <> None
                    end) items ->
  result_of (collect_paths items)
  = Ret (map entry_path
           (filter (fun e => negb (entry_is_dir e) &&
                             negb (ends_with ".nfo" (entry_file_name e)))
              (flat_map (fun it => match it with WOk e => [e] | WErr _ => [] end) items))).
Proof.
  intros H. rewrite (collect_paths_result items H). f_equal. clear H.
  induction items as [|[e|err] items IH]; simpl; [reflexivity| |exact IH].
  destruct (entry_is_dir e), (ends_with ".nfo" (entry_file_name e)); simpl;
    rewrite IH; reflexivity.
Qed.






(** *** Decimal fields read back *)

Lemma pad2_inj (m n : N) : pad2 m = pad2 n -> m = n.
Proof. intros H. rewrite <- (pad2_value m), <- (pad2_value n). now f_equal. Qed.

Lemma split_at_colon (u v r r' : string) :
  all_digits u = true -> all_digits v = true ->
  u ++ ":" ++ r = v ++ ":" ++ r' -> u = v /\ r = r'.
Proof.
  revert v. induction u as [|c u IH]; intros v Hu Hv H; destruct v as [|c' v].
  - simpl in H. injection H. auto.
  - simpl in H. injection H as Hc _. subst c'. unfold all_digits in Hv.
    cbn [list_ascii_of_string forallb] in Hv. apply andb_prop in Hv as [Hv _].
    vm_compute in Hv. discriminate.
  - simpl in H. injection H as Hc _. subst c. unfold all_digits in Hu.
    cbn [list_ascii_of_string forallb] in Hu. apply andb_prop in Hu as [Hu _].
    vm_compute in Hu. discriminate.
  - simpl in H. injection H as <- H.
    unfold all_digits in Hu, Hv. simpl in Hu, Hv.
    apply andb_prop in Hu as [_ Hu]. apply andb_prop in Hv as [_ Hv].
    destruct (IH v Hu Hv H) as [-> ->]. auto.
Qed.

Lemma colons_app (a b : string) : colons (a ++ b) = (colons a + colons b)%nat.
Proof. induction a as [|c a IH]; simpl; [reflexivity|]. rewrite IH. lia. Qed.

Lemma colons_digits (s : string) : all_digits s = true -> colons s = O.
Proof.
  unfold all_digits. induction s as [|c s IH]; simpl; [reflexivity|].
  intros H. apply andb_prop in H as [Hc Hs]. rewrite IH by exact Hs.
  destruct (Ascii.eqb_spec c ":") as [->|]; [discriminate|reflexivity].
Qed.

Lemma frac_suffix_secs (a : N) : frac_suffix (from_secs a) = "".
Proof. reflexivity. Qed.

Lemma secs_decomposition (a : N) :
  a = (a / 60 / 60 / 24 * 86400 + (a / 60 / 60) mod 24 * 3600 +
       (a / 60) mod 60 * 60 + a mod 60)%N.
Proof.
  pose proof (N.div_mod' a 60). pose proof (N.div_mod' (a / 60) 60).
  pose proof (N.div_mod' (a / 60 / 60) 24). lia.
Qed.

Lemma string_nil_app (s : string) : "" ++ s = s.
Proof. reflexivity. Qed.

Lemma format_duration_secs (a : N) :
  format_duration (from_secs a) =
  (if (0 <? a / 60 / 60 / 24)%N then pad2 (a / 60 / 60 / 24) ++ ":" else "") ++
  (if (0 <? a / 60 / 60)%N then pad2 (a / 60 / 60 mod 24) ++ ":" else "") ++
  pad2 (a / 60 mod 60) ++ ":" ++ pad2 (a mod 60).
Proof.
  unfold format_duration. rewrite frac_suffix_secs. cbn [as_secs from_secs].
  now rewrite string_app_nil.
Qed.

Lemma format_duration_secs_colons (a : N) :
  colons (format_duration (from_secs a))
  = ((if (0 <? a / 60 / 60 / 24)%N then 1 else 0) +
     (if (0 <? a / 60 / 60)%N then 1 else 0) + 1)%nat.
Proof.
  pose proof (fun n => colons_digits (pad2 n) (proj2 (pad2_facts n))) as Hp.
  rewrite format_duration_secs.
  destruct (0 <? a / 60 / 60 / 24)%N, (0 <? a / 60 / 60)%N;
    rewrite ?string_nil_app, !colons_app, !Hp; reflexivity.
Qed.

(** Whole seconds are never rendered alike: the fields of
    [format_duration] read back as decimal numbers recover the seconds, so
    distinct whole-second durations give distinct strings. *)
Theorem format_duration_secs_injective (a b : N) :
  format_duration (from_secs a) = format_duration (from_secs b) -> a = b.
Proof.
  intros H.
  pose proof (f_equal colons H) as Hc. rewrite !format_duration_secs_colons in Hc.
  rewrite !format_duration_secs in H.
  rewrite (secs_decomposition a), (secs_decomposition b).
  pose proof (days_pos_hours_pos (a / 60 / 60)) as Ka.
  pose proof (days_pos_hours_pos (b / 60 / 60)) as Kb.
  pose proof (fun n => proj2 (pad2_facts n)) as P.
  destruct (N.ltb_spec 0 (a / 60 / 60 / 24)) as [Da|Da],
    (N.ltb_spec 0 (a / 60 / 60)) as [Ha|Ha],
    (N.ltb_spec 0 (b / 60 / 60 / 24)) as [Db|Db],
    (N.ltb_spec 0 (b / 60 / 60)) as [Hb|Hb];
    cbn in Hc; try lia;
    rewrite ?string_nil_app, ?string_app_assoc in H.
  - apply split_at_colon in H as [E1 H]; [|apply P..].
    apply split_at_colon in H as [E2 H]; [|apply P..].
    apply split_at_colon in H as [E3 E4]; [|apply P..].
    apply pad2_inj in E1, E2, E3, E4. congruence.
  - apply split_at_colon in H as [E2 H]; [|apply P..].
    apply split_at_colon in H as [E3 E4]; [|apply P..].
    apply pad2_inj in E2, E3, E4.
    apply N.le_0_r in Da, Db. congruence.
  - apply split_at_colon in H as [E3 E4]; [|apply P..].
    apply pad2_inj in E3, E4.
    apply N.le_0_r in Da, Db, Ha, Hb. rewrite Ha, Hb. congruence.
Qed.

(** At or below 1000 the bit rate is written in [B/s] as an optional minus
    sign and the decimal digits of its absolute value, read back exactly. *)
Theorem format_bit_rate_bytes_value (r : Z) :
  (r <= 1000)%Z ->
  exists sign digits,
    format_bit_rate r = sign ++ digits ++ " B/s" /\
    all_digits digits = true /\ (1 <= String.length digits)%nat /\
    ((0 <= r)%Z /\ sign = "" /\ digits_value digits = Z.to_N r \/
     (r < 0)%Z /\ sign = "-" /\ digits_value digits = Z.to_N (- r)).
Proof.
  intros Hr. unfold format_bit_rate.
  rewrite (proj2 (Z.ltb_ge 1000000 r)) by lia.
  rewrite (proj2 (Z.ltb_ge 1000 r)) by lia.
  destruct r as [|p|p]; cbn [string_of_Z].
  - exists "", (string_of_N 0). pose proof (string_of_N_facts 0) as [F1 F2].
    split; [reflexivity|]. split; [exact F2|]. split; [exact F1|].
    left. split; [lia|]. split; [reflexivity|]. apply string_of_N_value.
  - exists "", (string_of_N (N.pos p)). pose proof (string_of_N_facts (N.pos p)) as [F1 F2].
    split; [reflexivity|]. split; [exact F2|]. split; [exact F1|].
    left. split; [lia|]. split; [reflexivity|]. apply string_of_N_value.
  - exists "-", (string_of_N (N.pos p)). pose proof (string_of_N_facts (N.pos p)) as [F1 F2].
    split; [reflexivity|]. split; [exact F2|]. split; [exact F1|].
    right. split; [lia|]. split; [reflexivity|]. apply string_of_N_value.
Qed.

(** ** Witnesses of the further properties *)

Lemma analyze_path_no_streams_witness :
  silent_input "/m/blank.mkv" = Some silent_context /\
  best silent_context Video = None /\ best silent_context Audio = None /\
  result_of (analyze_path silent_input "/m/blank.mkv")
  = Ret (Some (to_string_lossy "/m/blank.mkv" ++ nl ++ tab ++ "Duration: " ++
               format_duration (from_micros (try_into_u64_or_0 (ctx_duration silent_context))) ++
               nl ++ tab ++ "Bit rate: " ++ format_bit_rate (ctx_bit_rate silent_context) ++
               nl ++ tab)).
Proof.
  split; [vm_compute; reflexivity|]. split; [reflexivity|]. split; [reflexivity|].
  apply analyze_path_no_streams; [vm_compute | |]; reflexivity.
Defined.

Lemma ascii_names_never_panic_witness :
  let e := mkDirEntry "/m/song.mp3" false "song.mp3" in
  forallb (fun c => (byte_at c <? 128)%N) (list_ascii_of_string (entry_file_name e)) = true /\
  to_str (entry_file_name e) = Some (entry_file_name e) /\
  exists b, should_inspect_file e = ret b.
Proof.
  intros e. split; [vm_compute; reflexivity|].
  apply ascii_names_never_panic. vm_compute. reflexivity.
Defined.

Lemma summary_names_path_witness :
  demo_input "/m/song.mp3" = Some song_context /\ to_str "/m/song.mp3" <> None /\
  exists rest, result_of (analyze_path demo_input "/m/song.mp3")
               = Ret (Some ("/m/song.mp3" ++ nl ++ rest)).
Proof.
  split; [vm_compute; reflexivity|]. split; [vm_compute; discriminate|].
  apply (summary_names_path demo_input "/m/song.mp3" song_context);
    [vm_compute; reflexivity | vm_compute; discriminate].
Defined.

Lemma collect_paths_keeps_candidates_witness :
  let items := demo_walk "/m" in
  Forall (fun it => match it with
                    | WOk e => entry_is_dir e = true \/ to_str (entry_file_name e) <> None
                    | WErr err => exists p, error_path err = Some p /\ to_str p <> None
                    end) items /\
  result_of (collect_paths items)
  = Ret (map entry_path
           (filter (fun e => negb (entry_is_dir e) &&
                             negb (ends_with ".nfo" (entry_file_name e)))
              (flat_map (fun it => match it with WOk e => [e] | WErr _ => [] end) items))).
Proof.
  intros items.
  assert (H : Forall (fun it => match it with
                    | WOk e => entry_is_dir e = true \/ to_str (entry_file_name e) <> None
                    | WErr err => exists p, error_path err = Some p /\ to_str p <> None
                    end) items).
  { unfold items, demo_walk.
    repeat (apply Forall_cons;
            [first [left; reflexivity | right; vm_compute; discriminate |
                    exists "/m/private"; split; [reflexivity | vm_compute; discriminate]] |]).
    apply Forall_nil. }
  split; [exact H|]. apply collect_paths_keeps_candidates. exact H.
Defined.



Lemma format_duration_secs_injective_witness :
  format_duration (from_secs 90061) = format_duration (from_secs 90061) /\
  format_duration (from_secs 90061) = "01:01:01:01" /\ 90061%N = 90061%N.
Proof.
  split; [reflexivity|]. split; [vm_compute; reflexivity|].
  apply format_duration_secs_injective. reflexivity.
Defined.

Lemma format_bit_rate_bytes_value_witness :
  (-5 <= 1000)%Z /\ format_bit_rate (-5) = "-5 B/s" /\
  exists sign digits,
    format_bit_rate (-5) = sign ++ digits ++ " B/s" /\
    all_digits digits = true /\ (1 <= String.length digits)%nat /\
    ((0 <= -5)%Z /\ sign = "" /\ digits_value digits = Z.to_N (-5) \/
     (-5 < 0)%Z /\ sign = "-" /\ digits_value digits = Z.to_N (- -5)).
Proof.
  split; [lia|]. split; [vm_compute; reflexivity|].
  apply format_bit_rate_bytes_value. lia.
Defined.
